(** * gallery-preview: a shallow embedding of [__main__.py]

    The development follows the source top-down: the identifier deriver
    ([_hash], MD5 of the UTF-8 bytes), the [pathlib] fragment the program
    uses, the two image classes, the generator [get_files], the [Galleries]
    index with its four dictionaries, and the query methods.

    Conventions.
    - A Python [str] is modelled by its UTF-8 byte sequence, a Rocq
      [string]; [bytes(data, "utf-8")] is then the identity, concatenation
      and prefix tests agree, and the code-point order of Python coincides
      with the byte order of UTF-8.
    - A Python [dict] is an insertion-ordered association list with unique
      keys ([PyDict]); [collections.defaultdict(list)] adds the write that
      a lookup of a missing key performs.
    - Exceptions are values of [exn]; a method of [Galleries] is a function
      from the index to a result and the index afterwards. *)

From Stdlib Require Import ZArith List Strings.String Strings.Ascii Strings.Byte Bool Lia Permutation Sorted.
Import ListNotations.

Local Open Scope string_scope.
Local Open Scope list_scope.

(* ===================================================================== *)
(** ** hashlib.md5 (RFC 1321) on 32-bit words held in [Z] *)
(* ===================================================================== *)

Module Md5.
Local Open Scope Z_scope.

Definition wrap32 (x : Z) : Z := x mod 2 ^ 32.

Definition add32 (x y : Z) : Z := wrap32 (x + y).

Definition not32 (x : Z) : Z := 2 ^ 32 - 1 - x.

Definition rotl32 (x : Z) (c : Z) : Z :=
  Z.lor (wrap32 (Z.shiftl x c)) (Z.shiftr x (32 - c)).

(** Per-round shift amounts. *)
Definition shifts : list Z :=
  [ 7; 12; 17; 22;  7; 12; 17; 22;  7; 12; 17; 22;  7; 12; 17; 22;
    5;  9; 14; 20;  5;  9; 14; 20;  5;  9; 14; 20;  5;  9; 14; 20;
    4; 11; 16; 23;  4; 11; 16; 23;  4; 11; 16; 23;  4; 11; 16; 23;
    6; 10; 15; 21;  6; 10; 15; 21;  6; 10; 15; 21;  6; 10; 15; 21 ].

(** [K i = floor (2^32 * |sin (i + 1)|)]. *)
Definition K : list Z :=
  [ 0xd76aa478; 0xe8c7b756; 0x242070db; 0xc1bdceee;
    0xf57c0faf; 0x4787c62a; 0xa8304613; 0xfd469501;
    0x698098d8; 0x8b44f7af; 0xffff5bb1; 0x895cd7be;
    0x6b901122; 0xfd987193; 0xa679438e; 0x49b40821;
    0xf61e2562; 0xc040b340; 0x265e5a51; 0xe9b6c7aa;
    0xd62f105d; 0x02441453; 0xd8a1e681; 0xe7d3fbc8;
    0x21e1cde6; 0xc33707d6; 0xf4d50d87; 0x455a14ed;
    0xa9e3e905; 0xfcefa3f8; 0x676f02d9; 0x8d2a4c8a;
    0xfffa3942; 0x8771f681; 0x6d9d6122; 0xfde5380c;
    0xa4beea44; 0x4bdecfa9; 0xf6bb4b60; 0xbebfbc70;
    0x289b7ec6; 0xeaa127fa; 0xd4ef3085; 0x04881d05;
    0xd9d4d039; 0xe6db99e5; 0x1fa27cf8; 0xc4ac5665;
    0xf4292244; 0x432aff97; 0xab9423a7; 0xfc93a039;
    0x655b59c3; 0x8f0ccc92; 0xffeff47d; 0x85845dd1;
    0x6fa87e4f; 0xfe2ce6e0; 0xa3014314; 0x4e0811a1;
    0xf7537e82; 0xbd3af235; 0x2ad7d2bb; 0xeb86d391 ].

Record state := mk_state { sa : Z; sb : Z; sc : Z; sd : Z }.

Definition init : state :=
  mk_state 0x67452301 0xefcdab89 0x98badcfe 0x10325476.

(** Message bytes as numbers in [0, 256). *)
Definition bytes_of_string (s : string) : list Z :=
  map (fun c => Z.of_N (N_of_ascii c)) (list_ascii_of_string s).

(** Little-endian encoding of [x] on [n] bytes. *)
Fixpoint le_bytes (n : nat) (x : Z) : list Z :=
  match n with
  | O => []
  | S n' => x mod 256 :: le_bytes n' (x / 256)
  end.

Fixpoint le_word (bs : list Z) : Z :=
  match bs with
  | [] => 0
  | b :: bs' => b + 256 * le_word bs'
  end.

(** Padding: a [0x80] byte, zeros up to 56 modulo 64, the bit length on
    eight little-endian bytes. *)
Definition pad (msg : list Z) : list Z :=
  let len := Z.of_nat (List.length msg) in
  let zeros := Z.to_nat ((55 - len) mod 64) in
  msg ++ 128 :: repeat 0 zeros ++ le_bytes 8 ((8 * len) mod 2 ^ 64).

(** The sixteen words of a 64-byte block. *)
Fixpoint words (n : nat) (bs : list Z) : list Z :=
  match n with
  | O => []
  | S n' => le_word (firstn 4 bs) :: words n' (skipn 4 bs)
  end.

Definition round (M : list Z) (i : Z) (st : state) : state :=
  let '(mk_state A B C D) := st in
  let '(F, g) :=
    if i <? 16 then (Z.lor (Z.land B C) (Z.land (not32 B) D), i)
    else if i <? 32 then
      (Z.lor (Z.land D B) (Z.land (not32 D) C), (5 * i + 1) mod 16)
    else if i <? 48 then (Z.lxor (Z.lxor B C) D, (3 * i + 5) mod 16)
    else (Z.lxor C (Z.lor B (not32 D)), (7 * i) mod 16) in
  let F' :=
    add32 (add32 (add32 F A) (nth (Z.to_nat i) K 0)) (nth (Z.to_nat g) M 0) in
  mk_state D (add32 B (rotl32 F' (nth (Z.to_nat i) shifts 0))) B C.

Definition block (st : state) (blk : list Z) : state :=
  let M := words 16 blk in
  let st' :=
    fold_left (fun s i => round M (Z.of_nat i) s) (seq 0 64) st in
  mk_state (add32 (sa st) (sa st')) (add32 (sb st) (sb st'))
           (add32 (sc st) (sc st')) (add32 (sd st) (sd st')).

(** Absorb the padded message, 64 bytes at a time; [n] bounds the number
    of blocks. *)
Fixpoint blocks (n : nat) (st : state) (bs : list Z) : state :=
  match n, bs with
  | O, _ | _, [] => st
  | S n', _ => blocks n' (block st (firstn 64 bs)) (skipn 64 bs)
  end.

Definition digest (msg : list Z) : list Z :=
  let p := pad msg in
  let st := blocks (List.length p) init p in
  le_bytes 4 (sa st) ++ le_bytes 4 (sb st)
    ++ le_bytes 4 (sc st) ++ le_bytes 4 (sd st).

Definition hex_digit (d : Z) : ascii :=
  nth (Z.to_nat d) (list_ascii_of_string "0123456789abcdef") "0"%char.

Fixpoint hex (bs : list Z) : string :=
  match bs with
  | [] => EmptyString
  | b :: bs' => String (hex_digit (b / 16)) (String (hex_digit (b mod 16)) (hex bs'))
  end.

Definition hexdigest (s : string) : string := hex (digest (bytes_of_string s)).

End Md5.

(** [_hash(data)]: the hexadecimal MD5 digest of [bytes(data, "utf-8")]. *)
Definition _hash (data : string) : string := Md5.hexdigest data.

(** Digests are computed by [vm_compute] only. *)
#[global] Opaque _hash.

(* ===================================================================== *)
(** ** The fragment of pathlib the program uses (POSIX flavour) *)
(* ===================================================================== *)

(** A path is its anchor (absolute or not) and its components, as
    [pathlib.PurePosixPath] keeps them: empty components and ["."] are
    dropped on construction, [".."] is kept. *)
Record Path := mk_path { absolute : bool; parts : list string }.

Module PurePath.

(** [s.split("/")]. *)
Fixpoint split_slash (s : string) : list string :=
  match s with
  | EmptyString => [EmptyString]
  | String c s' =>
      if Ascii.eqb c "/" then EmptyString :: split_slash s'
      else match split_slash s' with
           | [] => [String c EmptyString]
           | w :: ws => String c w :: ws
           end
  end.

Definition kept_part (c : string) : bool :=
  negb (String.eqb c "") && negb (String.eqb c ".").

(** [pathlib.Path(s)]. *)
Definition of_string (s : string) : Path :=
  mk_path (String.prefix "/" s) (filter kept_part (split_slash s)).

(** [str(p)]. *)
Definition to_string (p : Path) : string :=
  if absolute p then "/" ++ String.concat "/" (parts p)
  else match parts p with
       | [] => "."
       | _ => String.concat "/" (parts p)
       end.

(** [p.name]: the last component, or the empty string. *)
Definition name (p : Path) : string := last (parts p) "".

(** [p.parent]: the path without its last component; a path without
    components is its own parent. *)
Definition parent (p : Path) : Path :=
  mk_path (absolute p) (removelast (parts p)).

(** [p / q] for a path [q]: an absolute right operand replaces [p]. *)
Definition joinpath (p q : Path) : Path :=
  if absolute q then q else mk_path (absolute p) (parts p ++ parts q).

(** [p / s] for a string [s]. *)
Definition div (p : Path) (s : string) : Path := joinpath p (of_string s).

(** [name.rfind(".")]. *)
Fixpoint rfind_dot (s : string) : option nat :=
  match s with
  | EmptyString => None
  | String c s' =>
      match rfind_dot s' with
      | Some i => Some (S i)
      | None => if Ascii.eqb c "." then Some 0 else None
      end
  end.

(** [p.suffix]: [name[i:]] for [i = name.rfind(".")] when
    [0 < i < len(name) - 1], the empty string otherwise. *)
Definition suffix (p : Path) : string :=
  let nm := name p in
  match rfind_dot nm with
  | Some i =>
      if Nat.ltb 0 i && Nat.ltb i (String.length nm - 1)
      then substring i (String.length nm - i) nm
      else ""
  | None => ""
  end.

End PurePath.

(** [s.startswith(prefix)]. *)
Definition startswith (s prefix : string) : bool := String.prefix prefix s.

(** [_IMAGE_EXTENSIONS]: membership in the set is string equality with one
    of its five members. *)
Definition _IMAGE_EXTENSIONS : list string :=
  [".jpg"; ".jpeg"; ".JPG"; ".png"; ".gif"].

Definition in_set (s : string) (set : list string) : bool :=
  existsb (String.eqb s) set.

(* ===================================================================== *)
(** ** Exceptions and results *)
(* ===================================================================== *)

(** The exceptions the modelled code can raise: [KeyError] from a [dict]
    or from [ZipFile.open], [IndexError] from [random.choices],
    [OSError] from [open] and [ZipFile], [BadZipFile] from [ZipFile]. *)
Inductive exn := KeyError | IndexError | OSError | BadZipFile.

Inductive result (A : Type) :=
| Ok (a : A)
| Raise (e : exn).
Arguments Ok {A} a.
Arguments Raise {A} e.

(* ===================================================================== *)
(** ** The file system the program reads *)
(* ===================================================================== *)

Definition bytes := list byte.

(** What [zipfile] makes of a regular file: [is_zipfile] finds no
    end-of-central-directory record ([NotZip]); it finds one but the
    container does not open ([CorruptZip]); or the container opens on its
    entries, in central-directory order ([Zip]). *)
Inductive zip_view :=
| NotZip
| CorruptZip
| Zip (entries : list (string * bytes)).

#[local] Set Warnings "-register-all".

(** A tree without symbolic links: regular files, directories with their
    named children, and entries that are neither. *)
Inductive node :=
| File (data : bytes) (z : zip_view)
| Dir (children : list (string * node))
| Special.

Record filesystem := mk_fs { fs_root : node; cwd : list string }.

Fixpoint assoc {V : Type} (k : string) (l : list (string * V)) : option V :=
  match l with
  | [] => None
  | (k', v) :: l' => if String.eqb k' k then Some v else assoc k l'
  end.

(** Path resolution from [here], whose ancestors are [above]. *)
Fixpoint walk (above : list node) (here : node) (ps : list string)
  : option node :=
  match ps with
  | [] => Some here
  | p :: ps' =>
      match here with
      | Dir cs =>
          if String.eqb p ".." then
            match above with
            | [] => walk [] here ps'
            | up :: above' => walk above' up ps'
            end
          else
            match assoc p cs with
            | Some c => walk (here :: above) c ps'
            | None => None
            end
      | _ => None
      end
  end.

Definition stat (fs : filesystem) (p : Path) : option node :=
  walk [] (fs_root fs) ((if absolute p then [] else cwd fs) ++ parts p).

Definition node_is_file (n : node) : bool :=
  match n with File _ _ => true | _ => false end.

Definition node_is_dir (n : node) : bool :=
  match n with Dir _ => true | _ => false end.

(** [zipfile.is_zipfile] on a regular file. *)
Definition view_is_zipfile (z : zip_view) : bool :=
  match z with NotZip => false | _ => true end.

(** [zipfile.ZipFile] on a regular file. *)
Definition view_ZipFile (z : zip_view) : result (list (string * bytes)) :=
  match z with Zip es => Ok es | _ => Raise BadZipFile end.

(** [path.open("rb").read()]. *)
Definition open_read (fs : filesystem) (p : Path) : result bytes :=
  match stat fs p with
  | Some (File data _) => Ok data
  | _ => Raise OSError
  end.

(** [zipfile.ZipFile(path)]. *)
Definition ZipFile (fs : filesystem) (p : Path)
  : result (list (string * bytes)) :=
  match stat fs p with
  | Some (File _ z) => view_ZipFile z
  | _ => Raise OSError
  end.

(** [z.open(name).read()]: the entry recorded last under [name]. *)
Fixpoint zip_read (es : list (string * bytes)) (nm : string) : result bytes :=
  match es with
  | [] => Raise KeyError
  | (k, data) :: es' =>
      match zip_read es' nm with
      | Ok later => Ok later
      | Raise _ => if String.eqb k nm then Ok data else Raise KeyError
      end
  end.

(* ===================================================================== *)
(** ** class RegularImage, class ArchivedImage *)
(* ===================================================================== *)

Inductive Image :=
| RegularImage (file : Path)
| ArchivedImage (archive gallery : Path) (file : string).

(** [self.gallery] of a [RegularImage] is [file.parent]. *)
Definition regular_gallery (file : Path) : Path := PurePath.parent file.

(** The separator written in [ArchivedImage.gallery_name], byte for byte
    as the source file holds it: the bytes C3 A2, E2 80 A0, E2 80 99
    between two spaces. *)
Definition gallery_name_separator : string :=
  String " " (String (ascii_of_nat 195) (String (ascii_of_nat 162)
  (String (ascii_of_nat 226) (String (ascii_of_nat 128) (String (ascii_of_nat 160)
  (String (ascii_of_nat 226) (String (ascii_of_nat 128) (String (ascii_of_nat 153)
  (String " " EmptyString))))))))).

(** The separator the specification describes: a space, the arrow U+2192
    (bytes E2 86 92), a space. *)
Definition arrow_separator : string :=
  String " " (String (ascii_of_nat 226) (String (ascii_of_nat 134)
  (String (ascii_of_nat 146) (String " " EmptyString)))).

Definition get (fs : filesystem) (self : Image) : result bytes :=
  match self with
  | RegularImage file => open_read fs file
  | ArchivedImage archive gallery file =>
      match ZipFile fs archive with
      | Ok z => zip_read z (PurePath.to_string (PurePath.div gallery file))
      | Raise e => Raise e
      end
  end.

Definition gallery_id (self : Image) : string :=
  match self with
  | RegularImage file => _hash (PurePath.to_string (regular_gallery file))
  | ArchivedImage archive gallery _ =>
      _hash (PurePath.to_string (PurePath.joinpath archive gallery))
  end.

Definition gallery_name (self : Image) : string :=
  match self with
  | RegularImage file => PurePath.to_string (regular_gallery file)
  | ArchivedImage archive gallery _ =>
      PurePath.to_string archive ++ gallery_name_separator
        ++ PurePath.to_string gallery
  end.

Definition gallery_location (self : Image) : Path :=
  match self with
  | RegularImage file => regular_gallery file
  | ArchivedImage archive _ _ => archive
  end.

Definition image_id (self : Image) : string :=
  match self with
  | RegularImage file => _hash (PurePath.to_string file)
  | ArchivedImage _ gallery file =>
      _hash (PurePath.to_string (PurePath.div gallery file))
  end.

Definition image_name (self : Image) : string :=
  match self with
  | RegularImage file => PurePath.name file
  | ArchivedImage _ _ file => file
  end.

(* ===================================================================== *)
(** ** def get_files(root, accelerate) *)
(* ===================================================================== *)

(** What consuming a generator to its end observes: the objects yielded,
    in order, and the exception that ended it, if one did. *)
Definition trace := (list Image * option exn)%type.

(** [yield from t1] followed by [t2]: an exception in [t1] ends the
    generator before [t2] starts. *)
Definition then_trace (t1 t2 : trace) : trace :=
  match snd t1 with
  | Some _ => t1
  | None => (fst t1 ++ fst t2, snd t2)
  end.

(** The loop over [z.infolist()]: one [ArchivedImage] per entry whose
    name, read as a path, has a recognised suffix. *)
Definition archived_images (root : Path) (entries : list (string * bytes))
  : list Image :=
  flat_map
    (fun afile =>
       let file := PurePath.of_string (fst afile) in
       if in_set (PurePath.suffix file) _IMAGE_EXTENSIONS
       then [ArchivedImage root (PurePath.parent file) (PurePath.name file)]
       else [])
    entries.

(** [get_files] at a path whose entry is [n]; the children of a directory
    are visited in listing order under the paths [root / name]. *)
Fixpoint get_files_at (accelerate : bool) (root : Path) (n : node)
  {struct n} : trace :=
  if startswith (PurePath.name root) "._" then ([], None)
  else
    match n with
    | File _ z =>
        if in_set (PurePath.suffix root) _IMAGE_EXTENSIONS then
          ([RegularImage root], None)
        else if (accelerate && String.eqb (PurePath.suffix root) ".zip")
                || (negb accelerate && view_is_zipfile z) then
          match view_ZipFile z with
          | Ok entries => (archived_images root entries, None)
          | Raise e => ([], Some e)
          end
        else ([], None)
    | Dir children =>
        (fix iterdir (cs : list (string * node)) : trace :=
           match cs with
           | [] => ([], None)
           | (child, c) :: cs' =>
               then_trace
                 (get_files_at accelerate (PurePath.div root child) c)
                 (iterdir cs')
           end) children
    | Special => ([], None)
    end.

(** [get_files(root, accelerate)]: a path that names nothing is neither a
    file nor a directory. *)
Definition get_files (fs : filesystem) (root : Path) (accelerate : bool)
  : trace :=
  if startswith (PurePath.name root) "._" then ([], None)
  else
    match stat fs root with
    | Some n => get_files_at accelerate root n
    | None => ([], None)
    end.

(* ===================================================================== *)
(** ** dict and collections.defaultdict(list) *)
(* ===================================================================== *)

Module PyDict.
Section Dict.
Context {V : Type}.

(** Items in insertion order; keys are unique. *)
Definition dict := list (string * V).

Definition empty : dict := [].

(** [d.get(k)]. *)
Definition lookup (k : string) (d : dict) : option V := assoc k d.

(** [d[k] = v]: an existing key keeps its position, a new key goes last. *)
Fixpoint setitem (k : string) (v : V) (d : dict) : dict :=
  match d with
  | [] => [(k, v)]
  | (k', v') :: d' =>
      if String.eqb k' k then (k', v) :: d' else (k', v') :: setitem k v d'
  end.

Definition keys (d : dict) : list string := map fst d.

Definition items (d : dict) : list (string * V) := d.

(** [k in d]. *)
Definition contains (k : string) (d : dict) : bool :=
  match lookup k d with Some _ => true | None => false end.
End Dict.
Arguments dict V : clear implicits.
End PyDict.

Import PyDict.

(* ===================================================================== *)
(** ** class Galleries *)
(* ===================================================================== *)

Record Galleries := mk_galleries {
  images : dict Image;
  image_galleries : dict (list Image);
  gallery_names : dict string;
  gallery_locations : dict Path
}.

(** [Galleries()]. *)
Definition new_galleries : Galleries :=
  mk_galleries empty empty empty empty.

(** A method: from the index to its result and the index afterwards. *)
Definition M (A : Type) : Type := Galleries -> result A * Galleries.

Definition ret {A} (a : A) : M A := fun self => (Ok a, self).

Definition raise {A} (e : exn) : M A := fun self => (Raise e, self).

Definition bind {A B} (m : M A) (f : A -> M B) : M B :=
  fun self =>
    match m self with
    | (Ok a, self') => f a self'
    | (Raise e, self') => (Raise e, self')
    end.

Notation "x <- m ;; k" := (bind m (fun x => k))
  (at level 61, m at next level, right associativity).

(** An operation that does not touch the index. *)
Definition lift {A} (r : result A) : M A := fun self => (r, self).

(** [d[k]] on a plain [dict] held in field [field]: [KeyError] when the
    key is missing. *)
Definition getitem {V} (field : Galleries -> dict V) (k : string) : M V :=
  fun self =>
    match lookup k (field self) with
    | Some v => (Ok v, self)
    | None => (Raise KeyError, self)
    end.

(** [self.image_galleries[k]] on the [defaultdict(list)]: a missing key is
    first stored with a fresh empty list, which is then returned. *)
Definition image_galleries_getitem (k : string) : M (list Image) :=
  fun self =>
    match lookup k (image_galleries self) with
    | Some l => (Ok l, self)
    | None =>
        (Ok [],
         mk_galleries (images self)
                      (setitem k [] (image_galleries self))
                      (gallery_names self)
                      (gallery_locations self))
    end.

Definition image_galleries_setitem (k : string) (l : list Image) : M unit :=
  fun self =>
    (Ok tt,
     mk_galleries (images self)
                  (setitem k l (image_galleries self))
                  (gallery_names self)
                  (gallery_locations self)).

Definition images_setitem (k : string) (i : Image) : M unit :=
  fun self =>
    (Ok tt,
     mk_galleries (setitem k i (images self))
                  (image_galleries self)
                  (gallery_names self)
                  (gallery_locations self)).

Definition gallery_names_setitem (k : string) (nm : string) : M unit :=
  fun self =>
    (Ok tt,
     mk_galleries (images self)
                  (image_galleries self)
                  (setitem k nm (gallery_names self))
                  (gallery_locations self)).

Definition gallery_locations_setitem (k : string) (p : Path) : M unit :=
  fun self =>
    (Ok tt,
     mk_galleries (images self)
                  (image_galleries self)
                  (gallery_names self)
                  (setitem k p (gallery_locations self))).

(** [insert_image]; [d[k] += [image]] reads [d[k]], extends the list and
    stores it back under [k]. *)
Definition insert_image_m (image : Image) : M unit :=
  _ <- images_setitem (image_id image) image ;;
  l <- image_galleries_getitem (gallery_id image) ;;
  _ <- image_galleries_setitem (gallery_id image) (l ++ [image]) ;;
  _ <- gallery_names_setitem (gallery_id image) (gallery_name image) ;;
  gallery_locations_setitem (gallery_id image) (gallery_location image).

(** The index after [self.insert_image(image)]. *)
Definition insert_image (image : Image) (self : Galleries) : Galleries :=
  snd (insert_image_m image self).

(** [get_image]. *)
Definition get_image (fs : filesystem) (image_id : string) : M bytes :=
  image <- getitem images image_id ;;
  lift (get fs image).

(** [sorted(l, key=lambda x: x[1])]: a stable sort, written as insertion
    from the right; an element goes before the first one whose key is not
    smaller, hence before its equals that came later. *)
Fixpoint sorted_insert (x : string * string) (l : list (string * string))
  : list (string * string) :=
  match l with
  | [] => [x]
  | y :: l' =>
      if String.leb (snd x) (snd y) then x :: y :: l'
      else y :: sorted_insert x l'
  end.

Fixpoint sorted_by_name (l : list (string * string))
  : list (string * string) :=
  match l with
  | [] => []
  | x :: l' => sorted_insert x (sorted_by_name l')
  end.

(** [get_gallery_names]. *)
Definition get_gallery_names : M (list (string * string)) :=
  fun self => (Ok (sorted_by_name (items (gallery_names self))), self).

(** [get_gallery_name]. *)
Definition get_gallery_name (gallery_id : string) : M string :=
  getitem gallery_names gallery_id.

(** [random.random()] returns [m / 2^53] for an integer [0 <= m < 2^53];
    [floor(random() * n)] is taken on the exact product. *)
Definition choice_index (m : N) (n : nat) : nat :=
  N.to_nat ((m mod 2 ^ 53) * N.of_nat n / 2 ^ 53)%N.

(** [random.choices(population, k=k)]:
    [[population[floor(random() * n)] for i in range(k)]], where [rng i] is
    the numerator of the [i]-th number the generator hands out. An index
    out of range raises [IndexError]. *)
Fixpoint choices {A : Type} (rng : nat -> N) (population : list A) (k : nat)
  : result (list A) :=
  match k with
  | O => Ok []
  | S k' =>
      match nth_error population (choice_index (rng O) (List.length population)) with
      | None => Raise IndexError
      | Some x =>
          match choices (fun i => rng (S i)) population k' with
          | Ok xs => Ok (x :: xs)
          | Raise e => Raise e
          end
      end
  end.

(** [random_images]. *)
Definition random_images (rng : nat -> N) (gallery_id : string) (k : nat)
  : M (list Image) :=
  population <- image_galleries_getitem gallery_id ;;
  lift (choices rng population k).

(** The data the [gallery] route of [make_app] collects. *)
Definition gallery (gallery_id : string) : M (string * list Image) :=
  root <- get_gallery_name gallery_id ;;
  imgs <- image_galleries_getitem gallery_id ;;
  ret (root, imgs).

(** The loops of [cli] (lines 191 to 197): every image a root yields is
    inserted as it is yielded; an exception leaves the loops with what was
    inserted so far. The flag [accelerate] is a parameter here: the line
    that computes it reads [check_archive], a name the function does not
    bind, and is not part of the model. *)
Definition insert_all (imgs : list Image) (self : Galleries) : Galleries :=
  fold_left (fun g image => insert_image image g) imgs self.

Definition index_root (fs : filesystem) (accelerate : bool) (root : Path)
  : M unit :=
  fun self =>
    let '(yielded, ended) := get_files fs root accelerate in
    (match ended with None => Ok tt | Some e => Raise e end,
     insert_all yielded self).

Fixpoint index_roots (fs : filesystem) (accelerate : bool) (roots : list Path)
  : M unit :=
  match roots with
  | [] => ret tt
  | root :: roots' =>
      _ <- index_root fs accelerate root ;;
      index_roots fs accelerate roots'
  end.

(* ===================================================================== *)
(** ** Vocabulary of the statements *)
(* ===================================================================== *)

(** The images the loops of [cli] insert, in order: what each root yields,
    up to and including the root whose traversal raises. *)
Fixpoint indexed_images (fs : filesystem) (accelerate : bool)
  (roots : list Path) : list Image :=
  match roots with
  | [] => []
  | root :: roots' =>
      match get_files fs root accelerate with
      | (yielded, None) => yielded ++ indexed_images fs accelerate roots'
      | (yielded, Some _) => yielded
      end
  end.

(** The image list of a gallery: empty for a gallery the index does not
    know. *)
Definition gallery_images (gallery_id : string) (self : Galleries)
  : list Image :=
  match lookup gallery_id (image_galleries self) with
  | Some l => l
  | None => []
  end.

(** The order the specification asks of [list_gallery_names]: by display
    name, equal names by gallery id. Pairs are [(gallery_id, name)]. *)
Definition spec_name_then_id_leb (x y : string * string) : bool :=
  String.ltb (snd x) (snd y)
  || (String.eqb (snd x) (snd y) && String.leb (fst x) (fst y)).

Fixpoint is_sorted {A : Type} (leb : A -> A -> bool) (l : list A) : bool :=
  match l with
  | [] => true
  | x :: l' => forallb (leb x) l' && is_sorted leb l'
  end.



(** The last image of [imgs] whose key [f] is [k], if there is one. *)
Fixpoint last_with (f : Image -> string) (k : string) (imgs : list Image)
  : option Image :=
  match imgs with
  | [] => None
  | image :: imgs' =>
      match last_with f k imgs' with
      | Some later => Some later
      | None => if String.eqb (f image) k then Some image else None
      end
  end.




Fixpoint no_slash (s : string) : bool :=
  match s with
  | EmptyString => true
  | String c s' => negb (Ascii.eqb c "/") && no_slash s'
  end.

(** A string that [pathlib] reads as one path component: it has no slash
    and is neither empty nor [.]. *)
Definition component (c : string) : bool :=
  PurePath.kept_part c && no_slash c.




(* ===================================================================== *)
(** ** File systems used in the examples *)
(* ===================================================================== *)

(** A directory [r] holding two archives, each with an entry [x/1.jpg] of
    its own content. *)
Definition two_archives_fs : filesystem :=
  mk_fs
    (Dir [("r",
           Dir [("a.zip", File [x50; x4b] (Zip [("x/1.jpg", [x0a])]));
                ("b.zip", File [x50; x4b] (Zip [("x/1.jpg", [x0b])]))])])
    [].

Definition first_archived : Image :=
  ArchivedImage (PurePath.of_string "r/a.zip") (PurePath.of_string "x") "1.jpg".

Definition second_archived : Image :=
  ArchivedImage (PurePath.of_string "r/b.zip") (PurePath.of_string "x") "1.jpg".

(** A directory [r] with an image, a file named [broken.zip] that is no
    zip container, and a second image listed after it. *)
Definition broken_zip_fs : filesystem :=
  mk_fs
    (Dir [("r",
           Dir [("ok.png", File [x01] NotZip);
                ("broken.zip", File [x00] NotZip);
                ("late.png", File [x02] NotZip)])])
    [].

(** A directory [r] listing the archive [a.zip], which holds [g/2.jpg],
    and then a directory whose name is [a.zip], the separator of
    [gallery_name] and [g], which holds [1.jpg]. *)
Definition same_name_fs : filesystem :=
  mk_fs
    (Dir [("r",
           Dir [("a.zip", File [x50; x4b] (Zip [("g/2.jpg", [x02])]));
                (("a.zip" ++ gallery_name_separator ++ "g")%string,
                 Dir [("1.jpg", File [x01] NotZip)])])])
    [].

(** The same two entries of [r], listed in the other order. *)
Definition same_name_fs_swapped : filesystem :=
  mk_fs
    (Dir [("r",
           Dir [(("a.zip" ++ gallery_name_separator ++ "g")%string,
                 Dir [("1.jpg", File [x01] NotZip)]);
                ("a.zip", File [x50; x4b] (Zip [("g/2.jpg", [x02])]))])])
    [].

(** An archived image with plain names. *)
Definition plain_archived : Image :=
  ArchivedImage (PurePath.of_string "a.zip") (PurePath.of_string "g") "x.jpg".

(* ===================================================================== *)
(** * Properties *)
(* ===================================================================== *)

(** ** The identifier deriver, on known digests *)

Example md5_empty : _hash "" = "d41d8cd98f00b204e9800998ecf8427e".
Proof. vm_compute. reflexivity. Qed.

Example md5_abc : _hash "abc" = "900150983cd24fb0d6963f7d28e17f72".
Proof. vm_compute. reflexivity. Qed.

Example md5_path : _hash "a/b.jpg" = "ad96d0fb4c6526908f02832eee45085e".
Proof. vm_compute. reflexivity. Qed.

Example md5_two_blocks :
  _hash "xxxxxxxxxxxxxxxxxxxxxxxxxxxxxxxxxxxxxxxxxxxxxxxxxxxxxxxxxxxxxxxxxxxxxx"
  = "7d56c0f83fd1e320d60ea2f13dfdeedd".
Proof. vm_compute. reflexivity. Qed.

(** ** Dictionaries *)

Section DictFacts.
Context {V : Type}.
Implicit Types (d : dict V) (k : string) (v : V).

Lemma lookup_setitem_eq k v d : lookup k (setitem k v d) = Some v.
Proof.
  induction d as [|[k' v'] d IH]; simpl.
  - now rewrite String.eqb_refl.
  - destruct (String.eqb k' k) eqn:E; simpl; rewrite E; auto.
Qed.

Lemma lookup_setitem_ne k k' v d :
  k <> k' -> lookup k' (setitem k v d) = lookup k' d.
Proof.
  intros Hne. induction d as [|[k0 v0] d IH]; simpl.
  - destruct (String.eqb k k') eqn:E; auto.
    apply String.eqb_eq in E. contradiction.
  - destruct (String.eqb k0 k) eqn:E; simpl.
    + apply String.eqb_eq in E. subst k0.
      destruct (String.eqb k k') eqn:E'; auto.
      apply String.eqb_eq in E'. contradiction.
    + destruct (String.eqb k0 k'); auto.
Qed.

Lemma setitem_setitem k v w d :
  setitem k v (setitem k w d) = setitem k v d.
Proof.
  induction d as [|[k' v'] d IH]; simpl.
  - now rewrite String.eqb_refl.
  - destruct (String.eqb k' k) eqn:E; simpl; rewrite E; congruence.
Qed.

Lemma keys_setitem k v d k' :
  In k' (keys (setitem k v d)) <-> k' = k \/ In k' (keys d).
Proof.
  induction d as [|[k0 v0] d IH]; simpl.
  - intuition.
  - destruct (String.eqb k0 k) eqn:E; simpl.
    + apply String.eqb_eq in E. subst. intuition.
    + rewrite IH. intuition.
Qed.

Lemma lookup_some_keys k d :
  (exists v, lookup k d = Some v) <-> In k (keys d).
Proof.
  induction d as [|[k0 v0] d IH]; simpl.
  - split; [intros [v H]; discriminate | tauto].
  - destruct (String.eqb k0 k) eqn:E.
    + apply String.eqb_eq in E. subst. split; eauto.
    + rewrite IH. apply String.eqb_neq in E. intuition.
Qed.

Lemma contains_keys k d : contains k d = true <-> In k (keys d).
Proof.
  rewrite <- lookup_some_keys. unfold contains.
  destruct (lookup k d); split; eauto; try discriminate.
  intros [v H]. discriminate.
Qed.

Lemma lookup_in_items k v d : lookup k d = Some v -> In (k, v) (items d).
Proof.
  induction d as [|[k0 v0] d IH]; simpl; [discriminate|].
  destruct (String.eqb k0 k) eqn:E.
  - apply String.eqb_eq in E. intros [= ->]. subst. now left.
  - intros H. right. now apply IH.
Qed.

Lemma NoDup_keys_setitem k v d :
  NoDup (keys d) -> NoDup (keys (setitem k v d)).
Proof.
  induction d as [|[k0 v0] d IH]; simpl; intros Hnd.
  - constructor; [tauto | constructor].
  - inversion Hnd as [|? ? Hnin Hnd']; subst.
    destruct (String.eqb k0 k) eqn:E; simpl.
    + now constructor.
    + constructor; [|auto].
      change (~ In k0 (keys (setitem k v d))).
      rewrite keys_setitem. apply String.eqb_neq in E. intuition.
Qed.
End DictFacts.

(** ** What [insert_image] writes *)

Lemma images_insert_image image self :
  images (insert_image image self)
  = setitem (image_id image) image (images self).
Proof.
  unfold insert_image, insert_image_m, bind, images_setitem,
    image_galleries_getitem; simpl.
  destruct (lookup (gallery_id image) (image_galleries self)); reflexivity.
Qed.

Lemma image_galleries_insert_image image self :
  image_galleries (insert_image image self)
  = setitem (gallery_id image)
      (gallery_images (gallery_id image) self ++ [image])
      (image_galleries self).
Proof.
  unfold insert_image, insert_image_m, bind, images_setitem,
    image_galleries_getitem, gallery_images; simpl.
  destruct (lookup (gallery_id image) (image_galleries self)); simpl;
    [reflexivity | apply setitem_setitem].
Qed.

Lemma gallery_names_insert_image image self :
  gallery_names (insert_image image self)
  = setitem (gallery_id image) (gallery_name image) (gallery_names self).
Proof.
  unfold insert_image, insert_image_m, bind, images_setitem,
    image_galleries_getitem; simpl.
  destruct (lookup (gallery_id image) (image_galleries self)); reflexivity.
Qed.

Lemma gallery_locations_insert_image image self :
  gallery_locations (insert_image image self)
  = setitem (gallery_id image) (gallery_location image)
      (gallery_locations self).
Proof.
  unfold insert_image, insert_image_m, bind, images_setitem,
    image_galleries_getitem; simpl.
  destruct (lookup (gallery_id image) (image_galleries self)); reflexivity.
Qed.

Lemma insert_all_app l1 l2 self :
  insert_all (l1 ++ l2) self = insert_all l2 (insert_all l1 self).
Proof. unfold insert_all. apply fold_left_app. Qed.

Lemma insert_all_cons image l self :
  insert_all (image :: l) self = insert_all l (insert_image image self).
Proof. reflexivity. Qed.

Lemma insert_all_snoc l image self :
  insert_all (l ++ [image]) self = insert_image image (insert_all l self).
Proof. now rewrite insert_all_app. Qed.

(** Inserting images whose identifiers differ from [k] leaves the entry
    of [k] in [images] as it was. *)
Lemma lookup_images_insert_all_other k l self :
  (forall later, In later l -> image_id later <> k) ->
  lookup k (images (insert_all l self)) = lookup k (images self).
Proof.
  revert self. induction l as [|x l IH]; intros self Hl; [reflexivity|].
  rewrite insert_all_cons, IH by (intros; apply Hl; now right).
  rewrite images_insert_image.
  apply lookup_setitem_ne. apply Hl. now left.
Qed.

(** The image stored under an identifier is the last one inserted with it. *)
Lemma lookup_images_last_inserted before image after self :
  (forall later, In later after -> image_id later <> image_id image) ->
  lookup (image_id image) (images (insert_all (before ++ image :: after) self))
  = Some image.
Proof.
  intros Hafter.
  rewrite insert_all_app, insert_all_cons.
  rewrite lookup_images_insert_all_other by assumption.
  rewrite images_insert_image. apply lookup_setitem_eq.
Qed.

(** The index the loops of [cli] leave is the one obtained by inserting
    [indexed_images], whether or not a traversal raised. *)
Lemma index_roots_inserts fs accelerate roots self :
  snd (index_roots fs accelerate roots self)
  = insert_all (indexed_images fs accelerate roots) self.
Proof.
  revert self. induction roots as [|root roots IH]; intros self; [reflexivity|].
  simpl. unfold bind, index_root.
  destruct (get_files fs root accelerate) as [yielded [e|]]; simpl.
  - reflexivity.
  - rewrite IH. symmetry. apply insert_all_app.
Qed.

(** ** Keys stay unique *)

Lemma NoDup_keys_images_insert_all l self :
  NoDup (keys (images self)) -> NoDup (keys (images (insert_all l self))).
Proof.
  revert self. induction l as [|x l IH]; intros self Hnd; [assumption|].
  rewrite insert_all_cons. apply IH.
  rewrite images_insert_image. now apply NoDup_keys_setitem.
Qed.

Lemma filter_key_unique {V : Type} (k : string) (v : V) (d : dict V) :
  NoDup (keys d) ->
  lookup k d = Some v ->
  filter (fun kv => String.eqb (fst kv) k) (items d) = [(k, v)].
Proof.
  induction d as [|[k0 v0] d IH]; simpl; intros Hnd Hl; [discriminate|].
  inversion Hnd as [|? ? Hnin Hnd']; subst.
  destruct (String.eqb k0 k) eqn:E.
  - apply String.eqb_eq in E. subst k0. injection Hl as ->.
    f_equal.
    assert (Hnone : forall kv, In kv d -> String.eqb (fst kv) k = false).
    { intros [k1 v1] Hin. simpl. apply String.eqb_neq. intros ->.
      apply Hnin. apply in_map_iff. now exists (k, v1). }
    clear - Hnone. induction d as [|kv d IH]; [reflexivity|].
    simpl. rewrite Hnone by now left. apply IH.
    intros; apply Hnone; now right.
  - now apply IH.
Qed.

(** ** C1: byte retrieval through the index *)

(** C1, as stated, fails: traversing [r] yields the entry [x/1.jpg] of
    [a.zip] and then the entry [x/1.jpg] of [b.zip]; both have the same
    [image_id], so after indexing, [get_image] at the identifier of the
    first returns the bytes of the second, while the first image's own
    [get] returns its own bytes. *)
Lemma C1_shared_image_id_breaks_roundtrip :
  let self :=
    snd (index_roots two_archives_fs true [PurePath.of_string "r"]
           new_galleries) in
  In first_archived
     (indexed_images two_archives_fs true [PurePath.of_string "r"])
  /\ get two_archives_fs first_archived = Ok [x0a]
  /\ fst (get_image two_archives_fs (image_id first_archived) self)
     = Ok [x0b]
  /\ fst (get_image two_archives_fs (image_id first_archived) self)
     <> get two_archives_fs first_archived.
Proof. vm_compute. repeat split; [now left | discriminate]. Qed.

(** C1 (amended): for every image yielded by traversal and inserted by the
    indexing loops after which no image with the same [image_id] is
    inserted, [get_image] at its [image_id] returns exactly what the
    image's own [get] returns (the same bytes, or the same exception), and
    leaves the index as it was. *)
Theorem C1_get_image_roundtrip
  (fs : filesystem) (accelerate : bool) (roots : list Path)
  (before after : list Image) (image : Image) :
  indexed_images fs accelerate roots = before ++ image :: after ->
  (forall later, In later after -> image_id later <> image_id image) ->
  let self := snd (index_roots fs accelerate roots new_galleries) in
  get_image fs (image_id image) self = (get fs image, self).
Proof.
  intros Hsplit Hlast self.
  assert (Hstored : lookup (image_id image) (images self) = Some image).
  { unfold self. rewrite index_roots_inserts, Hsplit.
    now apply lookup_images_last_inserted. }
  unfold get_image, bind, getitem, lift. now rewrite Hstored.
Qed.

Lemma C1_get_image_roundtrip_witness :
  get_image two_archives_fs (image_id second_archived)
    (snd (index_roots two_archives_fs true [PurePath.of_string "r"]
            new_galleries))
  = (get two_archives_fs second_archived,
     snd (index_roots two_archives_fs true [PurePath.of_string "r"]
            new_galleries)).
Proof.
  apply (C1_get_image_roundtrip two_archives_fs true [PurePath.of_string "r"]
           [first_archived] [] second_archived).
  - vm_compute. reflexivity.
  - intros later [].
Defined.

(** ** C10: the identifier of an archived image *)

(** C10: two archived images with the same internal folder and entry name
    have the same [image_id], whatever their archives, because the
    identifier is the hash of [gallery / file] alone; after both are
    inserted, the [images] dictionary holds exactly one item under that
    identifier, and it is the image inserted later. *)
Theorem C10_archived_image_id_ignores_archive
  (archive1 archive2 gallery : Path) (file : string)
  (earlier between : list Image) :
  let first := ArchivedImage archive1 gallery file in
  let later := ArchivedImage archive2 gallery file in
  let self :=
    insert_image later
      (insert_all between (insert_image first
         (insert_all earlier new_galleries))) in
  image_id first = _hash (PurePath.to_string (PurePath.div gallery file))
  /\ image_id first = image_id later
  /\ lookup (image_id first) (images self) = Some later
  /\ filter (fun kv => String.eqb (fst kv) (image_id first))
       (items (images self))
     = [(image_id first, later)].
Proof.
  intros first later self.
  assert (Hl : lookup (image_id first) (images self) = Some later).
  { unfold self. rewrite images_insert_image. apply lookup_setitem_eq. }
  repeat split; try assumption.
  apply filter_key_unique; [|assumption].
  unfold self. rewrite images_insert_image. apply NoDup_keys_setitem.
  apply NoDup_keys_images_insert_all.
  rewrite images_insert_image. apply NoDup_keys_setitem.
  apply NoDup_keys_images_insert_all. constructor.
Qed.

(** ** The invariant of the index *)

Lemma gallery_images_insert_image g image self :
  gallery_images g (insert_image image self)
  = if String.eqb (gallery_id image) g
    then gallery_images g self ++ [image]
    else gallery_images g self.
Proof.
  unfold gallery_images at 1. rewrite image_galleries_insert_image.
  destruct (String.eqb (gallery_id image) g) eqn:E.
  - apply String.eqb_eq in E. subst g. now rewrite lookup_setitem_eq.
  - apply String.eqb_neq in E. now rewrite lookup_setitem_ne.
Qed.





(** ** C7: the four dictionaries after insertions *)



(** ** C3: what the queries write *)

(** C3, as stated, fails: on the index built from [two_archives_fs],
    sampling a gallery id the index does not know stores that id, with an
    empty list, in [image_galleries] (and then raises), so the index is
    not what it was; the lookup behind the gallery listing does the same. *)
Lemma C3_unknown_gallery_is_stored :
  let self :=
    snd (index_roots two_archives_fs true [PurePath.of_string "r"]
           new_galleries) in
  let sampled := random_images (fun _ => 0%N) "unknown" 3 self in
  let listed := image_galleries_getitem "unknown" self in
  lookup "unknown" (image_galleries self) = None
  /\ fst sampled = Raise IndexError
  /\ lookup "unknown" (image_galleries (snd sampled)) = Some []
  /\ snd sampled <> self
  /\ lookup "unknown" (image_galleries (snd listed)) = Some []
  /\ snd listed <> self.
Proof.
  vm_compute. repeat split; discriminate.
Qed.

(** C3 (amended): [get_image], [get_gallery_names] and [get_gallery_name]
    leave the whole index unchanged for every argument; the gallery
    listing [image_galleries[gallery_id]] and [random_images] leave
    [images], [gallery_names] and [gallery_locations] unchanged for every
    argument, and leave [image_galleries] unchanged when the gallery id is
    one of its keys; for a gallery id that is not, they store it with an
    empty list. *)
Theorem C3_queries_frame
  (fs : filesystem) (rng : nat -> N) (self : Galleries)
  (image_id0 gallery_id0 : string) (k : nat) :
  snd (get_image fs image_id0 self) = self
  /\ snd (get_gallery_names self) = self
  /\ snd (get_gallery_name gallery_id0 self) = self
  /\ (forall after,
        after = snd (image_galleries_getitem gallery_id0 self)
        \/ after = snd (random_images rng gallery_id0 k self) ->
        images after = images self
        /\ gallery_names after = gallery_names self
        /\ gallery_locations after = gallery_locations self
        /\ image_galleries after
           = if contains gallery_id0 (image_galleries self)
             then image_galleries self
             else setitem gallery_id0 [] (image_galleries self)).
Proof.
  split; [|split; [|split]].
  - unfold get_image, bind, getitem, lift.
    destruct (lookup image_id0 (images self)); reflexivity.
  - reflexivity.
  - unfold get_gallery_name, getitem.
    destruct (lookup gallery_id0 (gallery_names self)); reflexivity.
  - assert (Hsame : snd (random_images rng gallery_id0 k self)
                    = snd (image_galleries_getitem gallery_id0 self)).
    { unfold random_images, bind, lift.
      destruct (image_galleries_getitem gallery_id0 self) as [[l|e] s];
        reflexivity. }
    intros after Hafter.
    assert (Hlisted : after = snd (image_galleries_getitem gallery_id0 self))
      by (destruct Hafter; congruence).
    subst after. unfold image_galleries_getitem, contains.
    destruct (lookup gallery_id0 (image_galleries self)); simpl; auto.
Qed.

(** ** random.choices *)




(** ** C2: sampling *)




(** ** Traversal: unfolding equations *)

Lemma in_set_In s set : in_set s set = true <-> In s set.
Proof.
  unfold in_set. rewrite existsb_exists. split.
  - intros (x & Hx & E). apply String.eqb_eq in E. now subst.
  - intros H. exists s. split; [assumption | apply String.eqb_refl].
Qed.

Lemma then_trace_nil t : then_trace ([], None) t = t.
Proof. now destruct t. Qed.

Lemma get_files_at_skipped accelerate root n :
  startswith (PurePath.name root) "._" = true ->
  get_files_at accelerate root n = ([], None).
Proof. intros H. destruct n; simpl; now rewrite H. Qed.

Lemma get_files_at_file accelerate root data z :
  get_files_at accelerate root (File data z)
  = if startswith (PurePath.name root) "._" then ([], None)
    else if in_set (PurePath.suffix root) _IMAGE_EXTENSIONS then
      ([RegularImage root], None)
    else if (accelerate && String.eqb (PurePath.suffix root) ".zip")
            || (negb accelerate && view_is_zipfile z) then
      match view_ZipFile z with
      | Ok entries => (archived_images root entries, None)
      | Raise e => ([], Some e)
      end
    else ([], None).
Proof. reflexivity. Qed.

Lemma get_files_at_dir accelerate root children :
  get_files_at accelerate root (Dir children)
  = if startswith (PurePath.name root) "._" then ([], None)
    else fold_right
           (fun ch rest =>
              then_trace
                (get_files_at accelerate (PurePath.div root (fst ch)) (snd ch))
                rest)
           ([], None) children.
Proof.
  simpl. destruct (startswith (PurePath.name root) "._"); [reflexivity|].
  induction children as [|[child c] cs IH]; [reflexivity|].
  simpl. now rewrite IH.
Qed.


Lemma archived_images_shape root entries image :
  In image (archived_images root entries) ->
  exists gallery file, image = ArchivedImage root gallery file.
Proof.
  unfold archived_images. rewrite in_flat_map.
  intros (afile & _ & H).
  destruct (in_set _ _); [|destruct H].
  destruct H as [<-|[]]. eauto.
Qed.

Lemma name_div_component root child :
  PurePath.of_string child = mk_path false [child] ->
  PurePath.name (PurePath.div root child) = child.
Proof.
  intros H. unfold PurePath.div, PurePath.joinpath, PurePath.name.
  rewrite H. simpl. apply last_last.
Qed.




(** ** C8: entries named [._*] *)

(** C8: for every path whose base name starts with ["._"], the traversal
    yields nothing and raises nothing whatever the entry is (a file, an
    archive, a directory with any content, or nothing at all), from the
    root and from a directory listing alike: the listing yields what it
    yields without that entry. *)
Theorem C8_metadata_entries_skipped (accelerate : bool) (root : Path) :
  startswith (PurePath.name root) "._" = true ->
  (forall n, get_files_at accelerate root n = ([], None))
  /\ (forall fs, get_files fs root accelerate = ([], None))
  /\ (forall parent child c before after,
        root = PurePath.div parent child ->
        get_files_at accelerate parent (Dir (before ++ (child, c) :: after))
        = get_files_at accelerate parent (Dir (before ++ after))).
Proof.
  intros Hname. split; [|split].
  - intros n. now apply get_files_at_skipped.
  - intros fs. unfold get_files. now rewrite Hname.
  - intros parent child c before after ->.
    rewrite !get_files_at_dir.
    destruct (startswith (PurePath.name parent) "._"); [reflexivity|].
    induction before as [|b before IH]; simpl.
    + rewrite get_files_at_skipped by assumption. apply then_trace_nil.
    + now rewrite IH.
Qed.

Lemma C8_metadata_entries_skipped_witness :
  get_files_at true (PurePath.of_string "r/._hidden.jpg")
    (File [xff; xd8] NotZip) = ([], None)
  /\ get_files_at true (PurePath.of_string "r/._hidden.jpg")
       (Dir [("inner.png", File [x01] NotZip)]) = ([], None).
Proof.
  destruct (C8_metadata_entries_skipped true
              (PurePath.of_string "r/._hidden.jpg")) as [Hany _].
  - vm_compute. reflexivity.
  - split; apply Hany.
Defined.

(** ** C9: loose images by extension *)

(** C9, as stated, fails: the regular file [r/._hidden.jpg] has the
    recognised extension [.jpg], yet the traversal emits nothing for it. *)
Lemma C9_metadata_named_image_not_emitted :
  let root := PurePath.of_string "r/._hidden.jpg" in
  PurePath.suffix root = ".jpg"
  /\ In (PurePath.suffix root) _IMAGE_EXTENSIONS
  /\ get_files_at true root (File [xff; xd8] NotZip) = ([], None)
  /\ get_files_at false root (File [xff; xd8] NotZip) = ([], None).
Proof. vm_compute. repeat split. now left. Qed.

(** C9 (amended): for a regular file whose base name does not start with
    ["._"], the traversal emits it as a [RegularImage] if and only if its
    suffix is one of [.jpg], [.jpeg], [.JPG], [.png], [.gif], compared
    case-sensitively; when it is, exactly that one image is yielded; no
    other path is ever emitted as a loose image for it. In particular
    [photo.JPG] is emitted and [photo.bmp] is not, in any directory. *)
Theorem C9_loose_image_iff_extension
  (accelerate : bool) (root : Path) (data : bytes) (z : zip_view) :
  startswith (PurePath.name root) "._" = false ->
  let yielded := fst (get_files_at accelerate root (File data z)) in
  (In (RegularImage root) yielded
   <-> In (PurePath.suffix root) [".jpg"; ".jpeg"; ".JPG"; ".png"; ".gif"])
  /\ (In (PurePath.suffix root) [".jpg"; ".jpeg"; ".JPG"; ".png"; ".gif"] ->
        get_files_at accelerate root (File data z)
        = ([RegularImage root], None))
  /\ (forall file, In (RegularImage file) yielded -> file = root)
  /\ (forall dir,
        get_files_at accelerate (PurePath.div dir "photo.JPG") (File data z)
        = ([RegularImage (PurePath.div dir "photo.JPG")], None))
  /\ (forall dir file,
        ~ In (RegularImage file)
            (fst (get_files_at accelerate (PurePath.div dir "photo.bmp")
                    (File data z)))).
Proof.
  intros Hname yielded.
  assert (Hshape : forall p file,
            startswith (PurePath.name p) "._" = false ->
            In (RegularImage file) (fst (get_files_at accelerate p (File data z))) ->
            file = p /\ in_set (PurePath.suffix p) _IMAGE_EXTENSIONS = true).
  { intros p file Hp. rewrite get_files_at_file, Hp.
    destruct (in_set (PurePath.suffix p) _IMAGE_EXTENSIONS).
    - intros [[= <-]|[]]. auto.
    - destruct (_ || _); [|intros []].
      destruct (view_ZipFile z); [|intros []].
      intros H. apply archived_images_shape in H.
      destruct H as (g & f & H). discriminate. }
  assert (Hyes : forall p,
            startswith (PurePath.name p) "._" = false ->
            in_set (PurePath.suffix p) _IMAGE_EXTENSIONS = true ->
            get_files_at accelerate p (File data z) = ([RegularImage p], None)).
  { intros p Hp Hs. now rewrite get_files_at_file, Hp, Hs. }
  change [".jpg"; ".jpeg"; ".JPG"; ".png"; ".gif"] with _IMAGE_EXTENSIONS.
  split; [|split; [|split; [|split]]].
  - rewrite <- in_set_In. split.
    + intros H. now apply (Hshape root root Hname).
    + intros H. unfold yielded. rewrite (Hyes root Hname H). now left.
  - rewrite <- in_set_In. now apply Hyes.
  - intros file H. now apply (Hshape root file Hname).
  - intros dir.
    assert (Hn : PurePath.name (PurePath.div dir "photo.JPG") = "photo.JPG")
      by (now apply name_div_component).
    apply Hyes; unfold PurePath.suffix; rewrite Hn; reflexivity.
  - intros dir file H.
    assert (Hn : PurePath.name (PurePath.div dir "photo.bmp") = "photo.bmp")
      by (now apply name_div_component).
    apply Hshape in H; [|rewrite Hn; reflexivity].
    destruct H as [_ H]. unfold PurePath.suffix in H. rewrite Hn in H.
    discriminate.
Qed.

Lemma C9_loose_image_iff_extension_witness :
  get_files_at true (PurePath.of_string "r/photo.JPG") (File [xff; xd8] NotZip)
  = ([RegularImage (PurePath.of_string "r/photo.JPG")], None).
Proof.
  apply (C9_loose_image_iff_extension true (PurePath.of_string "r/photo.JPG")
           [xff; xd8] NotZip).
  - vm_compute. reflexivity.
  - vm_compute. do 2 right. now left.
Defined.

(** ** C4: a [.zip] file that is no zip container *)




(** The same on a whole tree: indexing [r] of [broken_zip_fs] with
    [accelerate] inserts [ok.png], raises at [broken.zip] and never
    reaches [late.png]; without [accelerate] both images are indexed. *)
Example broken_zip_indexing :
  let r := PurePath.of_string "r" in
  get_files broken_zip_fs r true
  = ([RegularImage (PurePath.of_string "r/ok.png")], Some BadZipFile)
  /\ get_files broken_zip_fs r false
     = ([RegularImage (PurePath.of_string "r/ok.png");
         RegularImage (PurePath.of_string "r/late.png")], None)
  /\ fst (index_roots broken_zip_fs true [r] new_galleries)
     = Raise BadZipFile.
Proof. vm_compute. repeat split. Qed.

(** ** Order of strings *)

Lemma string_compare_le_trans a :
  forall b c,
    String.compare a b <> Gt -> String.compare b c <> Gt ->
    String.compare a c <> Gt.
Proof.
  induction a as [|x a IH]; intros [|y b] [|z c]; simpl;
    try congruence.
  unfold Ascii.compare.
  destruct (N.compare_spec (N_of_ascii x) (N_of_ascii y)) as [Hxy|Hxy|Hxy];
    destruct (N.compare_spec (N_of_ascii y) (N_of_ascii z)) as [Hyz|Hyz|Hyz];
    destruct (N.compare_spec (N_of_ascii x) (N_of_ascii z)) as [Hxz|Hxz|Hxz];
    try congruence; try lia.
  apply IH.
Qed.

Lemma string_leb_trans a b c :
  String.leb a b = true -> String.leb b c = true -> String.leb a c = true.
Proof.
  unfold String.leb. intros Hab Hbc.
  pose proof (string_compare_le_trans a b c) as H.
  destruct (String.compare a b), (String.compare b c), (String.compare a c);
    try reflexivity; try discriminate; exfalso; apply H; congruence.
Qed.

Lemma string_leb_refl a : String.leb a a = true.
Proof. destruct (String.leb_total a a); assumption. Qed.

(** ** sorted(..., key=name) *)

Lemma sorted_insert_perm x l : Permutation (sorted_insert x l) (x :: l).
Proof.
  induction l as [|y l IH]; simpl; [reflexivity|].
  destruct (String.leb (snd x) (snd y)); [reflexivity|].
  rewrite IH. apply perm_swap.
Qed.

Lemma sorted_by_name_perm l : Permutation (sorted_by_name l) l.
Proof.
  induction l as [|x l IH]; simpl; [constructor|].
  rewrite sorted_insert_perm. now constructor.
Qed.

Lemma sorted_insert_sorted x l :
  StronglySorted (fun a b => String.leb (snd a) (snd b) = true) l ->
  StronglySorted (fun a b => String.leb (snd a) (snd b) = true)
    (sorted_insert x l).
Proof.
  induction 1 as [|y l Hs IH Hy]; simpl.
  - constructor; constructor.
  - destruct (String.leb (snd x) (snd y)) eqn:E.
    + constructor; [now constructor|].
      constructor; [assumption|].
      eapply Forall_impl; [|exact Hy].
      intros z Hz. simpl in Hz. eapply string_leb_trans; eassumption.
    + constructor; [assumption|].
      eapply Permutation_Forall.
      * symmetry. apply sorted_insert_perm.
      * constructor; [|assumption].
        destruct (String.leb_total (snd x) (snd y)); congruence.
Qed.

Lemma sorted_by_name_sorted l :
  StronglySorted (fun a b => String.leb (snd a) (snd b) = true)
    (sorted_by_name l).
Proof.
  induction l as [|x l IH]; simpl; [constructor|].
  now apply sorted_insert_sorted.
Qed.

(** Stability: the pairs of one name come out in the order they went in. *)
Lemma sorted_insert_stable nm x l :
  filter (fun p => String.eqb (snd p) nm) (sorted_insert x l)
  = filter (fun p => String.eqb (snd p) nm) (x :: l).
Proof.
  induction l as [|y l IH]; [reflexivity|].
  simpl sorted_insert.
  destruct (String.leb (snd x) (snd y)) eqn:E; [reflexivity|].
  cbn [filter] in *. rewrite IH.
  destruct (String.eqb (snd x) nm) eqn:Ex; [|reflexivity].
  destruct (String.eqb (snd y) nm) eqn:Ey; [|reflexivity].
  apply String.eqb_eq in Ex, Ey. rewrite Ex, Ey, string_leb_refl in E.
  discriminate.
Qed.

Lemma sorted_by_name_stable nm l :
  filter (fun p => String.eqb (snd p) nm) (sorted_by_name l)
  = filter (fun p => String.eqb (snd p) nm) l.
Proof.
  induction l as [|x l IH]; [reflexivity|].
  simpl sorted_by_name. rewrite sorted_insert_stable.
  cbn [filter]. now rewrite IH.
Qed.

(** ** C5: the list of gallery names *)

(** C5, as stated, fails in its tie-break: indexing [r] of [same_name_fs]
    records two galleries with distinct ids and the same display name;
    [get_gallery_names] lists them in the order of their insertion, the
    larger gallery id first, which is not the order by name and then by
    gallery id. With the two entries of [r] listed the other way round,
    the same two pairs come out in the opposite order: the order of equal
    names follows insertion, not the gallery ids. *)
Lemma C5_equal_names_not_ordered_by_id :
  let r := PurePath.of_string "r" in
  let self := snd (index_roots same_name_fs true [r] new_galleries) in
  let swapped :=
    snd (index_roots same_name_fs_swapped true [r] new_galleries) in
  let nm := ("r/a.zip" ++ gallery_name_separator ++ "g")%string in
  let archive_gallery := ("6c8ebbd667a68b5f8dd86c4e68618162", nm) in
  let directory_gallery := ("56852134d8f069eaf8c7a14973a92f61", nm) in
  fst (get_gallery_names self) = Ok [archive_gallery; directory_gallery]
  /\ String.ltb (fst directory_gallery) (fst archive_gallery) = true
  /\ is_sorted spec_name_then_id_leb [archive_gallery; directory_gallery]
     = false
  /\ fst (get_gallery_names swapped)
     = Ok [directory_gallery; archive_gallery].
Proof. vm_compute. repeat split. Qed.

(** C5 (amended): for every index, [get_gallery_names] returns all items
    of [gallery_names] as [(gallery_id, name)] pairs, sorted by name, the
    pairs of equal names in the order in which their galleries were first
    inserted; it leaves the index unchanged, so that calling it again
    yields the same output. *)
Theorem C5_gallery_names_sorted_stable (self : Galleries) :
  exists l,
    get_gallery_names self = (Ok l, self)
    /\ Permutation l (items (gallery_names self))
    /\ StronglySorted (fun a b => String.leb (snd a) (snd b) = true) l
    /\ (forall nm,
          filter (fun p => String.eqb (snd p) nm) l
          = filter (fun p => String.eqb (snd p) nm)
              (items (gallery_names self)))
    /\ get_gallery_names (snd (get_gallery_names self))
       = get_gallery_names self.
Proof.
  exists (sorted_by_name (items (gallery_names self))).
  split; [reflexivity|].
  split; [apply sorted_by_name_perm|].
  split; [apply sorted_by_name_sorted|].
  split; [intros nm; apply sorted_by_name_stable | reflexivity].
Qed.

(** ** C6: the display name of an archived gallery *)

(** C6: the separator that [ArchivedImage.gallery_name] writes between the
    archive and the internal folder is not a space, the arrow U+2192 and a
    space: the source holds, between the two spaces, the three characters
    U+00E2, U+2020, U+2019 (the arrow's UTF-8 bytes misread as
    Windows-1252). For [a.zip] and [g] the name is not ["a.zip → g"]. *)
Theorem C6_gallery_name_separator_bytes (archive gallery : Path) (file : string) :
  gallery_name (ArchivedImage archive gallery file)
  = (PurePath.to_string archive ++ gallery_name_separator
       ++ PurePath.to_string gallery)%string
  /\ gallery_name_separator <> arrow_separator
  /\ String.length gallery_name_separator = 10
  /\ String.length arrow_separator = 5
  /\ gallery_name plain_archived <> ("a.zip" ++ arrow_separator ++ "g")%string.
Proof.
  split; [reflexivity|]. vm_compute. repeat split; discriminate.
Qed.

(* ===================================================================== *)
(** * Further properties of the code *)
(* ===================================================================== *)

(** ** The identifier deriver *)







(** ** What an index built by insertions holds *)

Lemma last_with_some f k imgs image :
  last_with f k imgs = Some image -> In image imgs /\ f image = k.
Proof.
  induction imgs as [|x imgs IH]; simpl; [discriminate|].
  destruct (last_with f k imgs) as [later|].
  - intros [= <-]. destruct (IH eq_refl). auto.
  - destruct (String.eqb (f x) k) eqn:E; [|discriminate].
    intros [= <-]. apply String.eqb_eq in E. auto.
Qed.

Lemma last_with_none f k imgs :
  last_with f k imgs = None <-> forall image, In image imgs -> f image <> k.
Proof.
  induction imgs as [|x imgs IH]; simpl.
  - split; [intros _ image [] | reflexivity].
  - destruct (last_with f k imgs) as [later|] eqn:El.
    + split; [discriminate|]. intros H.
      destruct (last_with_some _ _ _ _ El) as [Hin Hk].
      exfalso. apply (H later); auto.
    + destruct (String.eqb (f x) k) eqn:E.
      * split; [discriminate|]. intros H. apply String.eqb_eq in E.
        exfalso. apply (H x); auto.
      * apply String.eqb_neq in E. split; [|reflexivity].
        intros _ image [<-|Hin]; [assumption|].
        now apply (proj1 IH).
Qed.

(** A dictionary that every insertion writes at [f image] with [v image]
    holds, under each key, the value of the last image inserted with it. *)
Lemma lookup_field_insert_all {V : Type}
  (field : Galleries -> dict V) (f : Image -> string) (v : Image -> V) :
  (forall image self,
     field (insert_image image self) = setitem (f image) (v image) (field self)) ->
  forall k imgs self,
    lookup k (field (insert_all imgs self))
    = match last_with f k imgs with
      | Some image => Some (v image)
      | None => lookup k (field self)
      end.
Proof.
  intros Hfield k imgs. induction imgs as [|x imgs IH]; intros self.
  - reflexivity.
  - rewrite insert_all_cons, IH. simpl.
    destruct (last_with f k imgs); [reflexivity|].
    rewrite Hfield. destruct (String.eqb (f x) k) eqn:E.
    + apply String.eqb_eq in E. subst k. apply lookup_setitem_eq.
    + apply String.eqb_neq in E. now apply lookup_setitem_ne.
Qed.

Lemma gallery_images_insert_all g imgs self :
  gallery_images g (insert_all imgs self)
  = gallery_images g self
      ++ filter (fun image => String.eqb (gallery_id image) g) imgs.
Proof.
  revert self. induction imgs as [|x imgs IH]; intros self.
  - simpl. now rewrite app_nil_r.
  - rewrite insert_all_cons, IH, gallery_images_insert_image. simpl.
    destruct (String.eqb (gallery_id x) g); [|reflexivity].
    now rewrite <- app_assoc.
Qed.





Lemma NoDup_keys_field_insert_all {V : Type}
  (field : Galleries -> dict V) (f : Image -> string) (v : Image -> V) :
  (forall image self,
     field (insert_image image self) = setitem (f image) (v image) (field self)) ->
  forall imgs self,
    NoDup (keys (field self)) -> NoDup (keys (field (insert_all imgs self))).
Proof.
  intros Hfield imgs. induction imgs as [|x imgs IH]; intros self Hnd;
    [assumption|].
  rewrite insert_all_cons. apply IH. rewrite Hfield.
  now apply NoDup_keys_setitem.
Qed.

Lemma image_galleries_getitem_known g self :
  fst (image_galleries_getitem g self) = Ok (gallery_images g self).
Proof.
  unfold image_galleries_getitem, gallery_images.
  destruct (lookup g (image_galleries self)); reflexivity.
Qed.

(** X2: in an index built by insertions, the list kept for a gallery id is
    exactly the inserted images with that gallery id, in the order of
    their insertion, an image inserted twice being listed twice; for a
    gallery id no inserted image has, the list is empty. *)
Theorem X2_gallery_list_is_insertion_order (inserted : list Image) (g : string) :
  let self := insert_all inserted new_galleries in
  fst (image_galleries_getitem g self)
  = Ok (filter (fun image => String.eqb (gallery_id image) g) inserted).
Proof.
  intros self. rewrite image_galleries_getitem_known. unfold self.
  now rewrite gallery_images_insert_all.
Qed.


Lemma get_gallery_name_insert_all inserted g :
  get_gallery_name g (insert_all inserted new_galleries)
  = (match last_with gallery_id g inserted with
     | Some image => Ok (gallery_name image)
     | None => Raise KeyError
     end, insert_all inserted new_galleries).
Proof.
  unfold get_gallery_name, getitem.
  rewrite (lookup_field_insert_all gallery_names gallery_id gallery_name
             gallery_names_insert_image).
  destruct (last_with gallery_id g inserted); reflexivity.
Qed.

(** X4: in an index built by insertions, [get_gallery_name] returns the
    [gallery_name] of the image inserted last with that gallery id, and
    the location kept for the gallery is that image's [gallery_location];
    it raises [KeyError] exactly when no inserted image has that gallery
    id; the index is unchanged either way. *)
Theorem X4_get_gallery_name_last_inserted (inserted : list Image) (g : string) :
  let self := insert_all inserted new_galleries in
  get_gallery_name g self
  = (match last_with gallery_id g inserted with
     | Some image => Ok (gallery_name image)
     | None => Raise KeyError
     end, self)
  /\ lookup g (gallery_locations self)
     = option_map gallery_location (last_with gallery_id g inserted)
  /\ (fst (get_gallery_name g self) = Raise KeyError
      <-> forall image, In image inserted -> gallery_id image <> g).
Proof.
  intros self. unfold self.
  split; [apply get_gallery_name_insert_all|]. split.
  - rewrite (lookup_field_insert_all gallery_locations gallery_id
               gallery_location gallery_locations_insert_image).
    destruct (last_with gallery_id g inserted); reflexivity.
  - rewrite get_gallery_name_insert_all, <- last_with_none. simpl.
    destruct (last_with gallery_id g inserted); split; congruence.
Qed.

(** X5: in an index built by insertions, [get_image] reads the image
    inserted last under the identifier, and raises [KeyError] exactly
    when no inserted image has that identifier; the index is unchanged. *)
Theorem X5_get_image_unknown_is_KeyError
  (fs : filesystem) (inserted : list Image) (id : string) :
  let self := insert_all inserted new_galleries in
  get_image fs id self
  = (match last_with image_id id inserted with
     | Some image => get fs image
     | None => Raise KeyError
     end, self)
  /\ ((forall image, In image inserted -> image_id image <> id) ->
      get_image fs id self = (Raise KeyError, self)).
Proof.
  intros self.
  assert (Hl : lookup id (images self) = last_with image_id id inserted).
  { unfold self.
    rewrite (lookup_field_insert_all images image_id (fun image => image)
               images_insert_image).
    destruct (last_with image_id id inserted); reflexivity. }
  assert (Hget : get_image fs id self
                 = (match last_with image_id id inserted with
                    | Some image => get fs image
                    | None => Raise KeyError
                    end, self)).
  { unfold get_image, bind, getitem, lift. rewrite Hl.
    destruct (last_with image_id id inserted); reflexivity. }
  split; [exact Hget|].
  intros Hnone. apply last_with_none in Hnone. now rewrite Hget, Hnone.
Qed.

(** X6: on an index built by insertions, the [gallery] route never writes
    to the index: for a gallery id some inserted image has, it collects
    the gallery's name and its images in insertion order; for any other
    gallery id it raises [KeyError] before the [defaultdict] is read. *)
Theorem X6_gallery_route_leaves_built_index (inserted : list Image) (g : string) :
  let self := insert_all inserted new_galleries in
  gallery g self
  = (match last_with gallery_id g inserted with
     | Some image =>
         Ok (gallery_name image,
             filter (fun i => String.eqb (gallery_id i) g) inserted)
     | None => Raise KeyError
     end, self).
Proof.
  intros self.
  pose proof (get_gallery_name_insert_all inserted g) as Hname.
  fold self in Hname.
  unfold gallery, bind. rewrite Hname.
  destruct (last_with gallery_id g inserted) as [image|] eqn:El;
    [|reflexivity].
  assert (Hfilter : gallery_images g self
                    = filter (fun i => String.eqb (gallery_id i) g) inserted).
  { unfold self. now rewrite gallery_images_insert_all. }
  destruct (last_with_some _ _ _ _ El) as [Hin Hg].
  assert (Hne : gallery_images g self <> []).
  { rewrite Hfilter. intros Hnil.
    assert (Hf : In image (filter (fun i => String.eqb (gallery_id i) g) inserted)).
    { apply filter_In. split; [assumption|]. now apply String.eqb_eq. }
    rewrite Hnil in Hf. destruct Hf. }
  unfold image_galleries_getitem, ret.
  unfold gallery_images in Hfilter, Hne.
  destruct (lookup g (image_galleries self)) as [l|];
    [|contradiction]. now rewrite Hfilter.
Qed.

Lemma last_with_exists f k imgs :
  (exists image, In image imgs /\ f image = k)
  <-> exists image, last_with f k imgs = Some image.
Proof.
  split.
  - intros (image & Hin & Hk).
    destruct (last_with f k imgs) as [found|] eqn:E; [eauto|].
    exfalso. apply (proj1 (last_with_none f k imgs) E image Hin Hk).
  - intros (image & H). exists image. now apply last_with_some in H.
Qed.

(** X7: on an index built by insertions, [get_gallery_names] lists every
    gallery id once: the ids it lists are exactly the gallery ids of the
    inserted images, and each is paired with the [gallery_name] of the
    image inserted last with that id. *)
Theorem X7_gallery_names_lists_each_gallery_once (inserted : list Image) :
  let self := insert_all inserted new_galleries in
  exists listing,
    fst (get_gallery_names self) = Ok listing
    /\ NoDup (map fst listing)
    /\ (forall g, In g (map fst listing)
                  <-> exists image, In image inserted /\ gallery_id image = g)
    /\ (forall g nm, In (g, nm) listing ->
          exists image, last_with gallery_id g inserted = Some image
                        /\ nm = gallery_name image).
Proof.
  intros self.
  exists (sorted_by_name (items (gallery_names self))).
  split; [reflexivity|].
  pose proof (sorted_by_name_perm (items (gallery_names self))) as Hperm.
  assert (Hlookup : forall g,
            lookup g (gallery_names self)
            = option_map gallery_name (last_with gallery_id g inserted)).
  { intros g. unfold self.
    rewrite (lookup_field_insert_all gallery_names gallery_id gallery_name
               gallery_names_insert_image).
    destruct (last_with gallery_id g inserted); reflexivity. }
  assert (Hnd : NoDup (keys (gallery_names self))).
  { apply (NoDup_keys_field_insert_all gallery_names gallery_id gallery_name
             gallery_names_insert_image). constructor. }
  split; [|split].
  - eapply Permutation_NoDup; [|exact Hnd].
    symmetry. apply Permutation_map. exact Hperm.
  - intros g. rewrite last_with_exists.
    assert (Hkeys : In g (map fst (sorted_by_name (items (gallery_names self))))
                    <-> In g (keys (gallery_names self))).
    { split; apply Permutation_in; [|symmetry];
        apply Permutation_map; exact Hperm. }
    rewrite Hkeys, <- lookup_some_keys, Hlookup.
    destruct (last_with gallery_id g inserted) as [image|]; simpl.
    + split; eauto.
    + split; intros [x H]; discriminate.
  - intros g nm Hin.
    apply (Permutation_in _ Hperm) in Hin.
    assert (Hl : lookup g (gallery_names self) = Some nm).
    { clear - Hin Hnd. unfold items in Hin.
      induction (gallery_names self) as [|[k v] d IH]; [destruct Hin|].
      simpl in Hnd. inversion Hnd as [|? ? Hnotin Hnd']; subst.
      unfold lookup. simpl. destruct (String.eqb k g) eqn:E.
      - apply String.eqb_eq in E. subst k.
        destruct Hin as [[= ->]|Hin]; [reflexivity|].
        exfalso. apply Hnotin. apply in_map_iff. now exists (g, nm).
      - destruct Hin as [[= -> ->]|Hin].
        + rewrite String.eqb_refl in E. discriminate.
        + now apply IH. }
    rewrite Hlookup in Hl.
    destruct (last_with gallery_id g inserted) as [image|]; [|discriminate].
    injection Hl as <-. eauto.
Qed.

(** ** Paths built by the traversal *)

Lemma split_slash_no_slash c : no_slash c = true -> PurePath.split_slash c = [c].
Proof.
  induction c as [|a c IH]; [reflexivity|].
  simpl. destruct (Ascii.eqb a "/"); [discriminate|].
  simpl. intros H. now rewrite (IH H).
Qed.

Lemma prefix_slash_no_slash c : no_slash c = true -> String.prefix "/" c = false.
Proof.
  destruct c as [|a c]; [reflexivity|].
  cbn [no_slash]. intros H. apply andb_prop in H. destruct H as [E _].
  apply negb_true_iff in E.
  change (String.prefix "/" (String a c))
    with (if ascii_dec "/"%char a then String.prefix "" c else false).
  destruct (ascii_dec "/" a) as [<-|Hne]; [|reflexivity].
  rewrite Ascii.eqb_refl in E. discriminate.
Qed.

Lemma of_string_component c :
  component c = true -> PurePath.of_string c = mk_path false [c].
Proof.
  unfold component. intros H. apply andb_prop in H. destruct H as [Hk Hs].
  unfold PurePath.of_string.
  rewrite (prefix_slash_no_slash _ Hs), (split_slash_no_slash _ Hs).
  simpl. now rewrite Hk.
Qed.

Lemma div_component root c :
  component c = true ->
  PurePath.div root c = mk_path (absolute root) (parts root ++ [c]).
Proof.
  intros H. unfold PurePath.div, PurePath.joinpath.
  now rewrite (of_string_component _ H).
Qed.

Lemma parent_div_component root c :
  component c = true -> PurePath.parent (PurePath.div root c) = root.
Proof.
  intros H. rewrite (div_component _ _ H). unfold PurePath.parent. simpl.
  rewrite removelast_last. now destruct root.
Qed.

Lemma split_slash_components s :
  Forall (fun c => no_slash c = true) (PurePath.split_slash s).
Proof.
  induction s as [|a s IH]; simpl.
  - constructor; [reflexivity | constructor].
  - destruct (Ascii.eqb a "/") eqn:E.
    + constructor; [reflexivity | exact IH].
    + destruct (PurePath.split_slash s) as [|w ws].
      * constructor; [simpl; now rewrite E | constructor].
      * inversion IH as [|? ? Hw Hws]; subst.
        constructor; [simpl; now rewrite E, Hw | exact Hws].
Qed.

Lemma of_string_parts_components s :
  Forall (fun c => component c = true) (parts (PurePath.of_string s)).
Proof.
  unfold PurePath.of_string. simpl.
  pose proof (split_slash_components s) as H.
  induction H as [|c cs Hc _ IH]; simpl; [constructor|].
  destruct (PurePath.kept_part c) eqn:E; [|exact IH].
  constructor; [|exact IH]. unfold component. now rewrite E, Hc.
Qed.

(** A path whose last component is a component is its parent joined with
    its name. *)
Lemma div_parent_name p :
  parts p <> [] ->
  component (PurePath.name p) = true ->
  PurePath.div (PurePath.parent p) (PurePath.name p) = p.
Proof.
  intros Hne Hc. rewrite (div_component _ _ Hc).
  unfold PurePath.parent, PurePath.name. simpl.
  rewrite <- app_removelast_last by assumption. now destruct p.
Qed.

Lemma recognised_suffix_has_name p :
  in_set (PurePath.suffix p) _IMAGE_EXTENSIONS = true -> parts p <> [].
Proof.
  intros H Hnil. unfold PurePath.suffix, PurePath.name in H.
  rewrite Hnil in H. discriminate.
Qed.

Lemma name_of_string_component s :
  parts (PurePath.of_string s) <> [] ->
  component (PurePath.name (PurePath.of_string s)) = true.
Proof.
  intros Hne. pose proof (of_string_parts_components s) as H.
  rewrite Forall_forall in H. apply H.
  unfold PurePath.name.
  destruct (exists_last Hne) as (l & c & ->). rewrite last_last.
  apply in_or_app. right. now left.
Qed.

(** ** Path resolution *)





(** ** Where yielded images and exceptions come from *)







Lemma archived_images_map_filter root entries :
  archived_images root entries
  = map (fun afile =>
           ArchivedImage root
             (PurePath.parent (PurePath.of_string (fst afile)))
             (PurePath.name (PurePath.of_string (fst afile))))
        (filter (fun afile =>
                   in_set (PurePath.suffix (PurePath.of_string (fst afile)))
                     _IMAGE_EXTENSIONS)
           entries).
Proof.
  unfold archived_images. induction entries as [|afile entries IH];
    [reflexivity|].
  cbn [flat_map filter]. rewrite IH.
  destruct (in_set _ _); reflexivity.
Qed.

(** X9: for a regular file, not named [._*], whose suffix is not a
    recognised image suffix and whose container opens: with [accelerate]
    unset, or with the suffix [.zip], the traversal yields one
    [ArchivedImage] per entry whose name has a recognised suffix, in the
    order of the entries, each carrying the file as its archive, and
    nothing else (nothing at all when no entry qualifies); with
    [accelerate] set and another suffix the file is not opened and
    nothing is yielded. Entry names are not tested for the [._] prefix. *)
Theorem X9_archive_yields_one_image_per_recognised_entry
  (accelerate : bool) (root : Path) (data : bytes)
  (entries : list (string * bytes)) :
  startswith (PurePath.name root) "._" = false ->
  in_set (PurePath.suffix root) _IMAGE_EXTENSIONS = false ->
  get_files_at accelerate root (File data (Zip entries))
  = if negb accelerate || String.eqb (PurePath.suffix root) ".zip"
    then
      (map (fun afile =>
              ArchivedImage root
                (PurePath.parent (PurePath.of_string (fst afile)))
                (PurePath.name (PurePath.of_string (fst afile))))
           (filter (fun afile =>
                      in_set (PurePath.suffix (PurePath.of_string (fst afile)))
                        _IMAGE_EXTENSIONS)
              entries),
       None)
    else ([], None).
Proof.
  intros Hname Hsuffix.
  rewrite get_files_at_file, Hname, Hsuffix, <- archived_images_map_filter.
  destruct accelerate; simpl.
  - rewrite orb_false_r. destruct (String.eqb _ _); reflexivity.
  - reflexivity.
Qed.

Lemma X9_archive_yields_one_image_per_recognised_entry_witness :
  get_files_at true (PurePath.of_string "r/a.zip")
    (File [x50; x4b]
       (Zip [("x/._1.jpg", [x0a]); ("notes.txt", [x00]); ("2.png", [x0b])]))
  = ([ArchivedImage (PurePath.of_string "r/a.zip")
        (PurePath.of_string "x") "._1.jpg";
      ArchivedImage (PurePath.of_string "r/a.zip")
        (PurePath.of_string ".") "2.png"], None).
Proof.
  rewrite (X9_archive_yields_one_image_per_recognised_entry true
             (PurePath.of_string "r/a.zip")).
  - vm_compute. reflexivity.
  - vm_compute. reflexivity.
  - vm_compute. reflexivity.
Defined.

(** ** Reading back what the traversal yields *)








(** ** Identifiers of loose and archived images *)

(** X12: the archived image yielded for an entry name with a recognised
    suffix has, whatever its archive, the [image_id] of the loose image
    whose path is that entry name. *)
Theorem X12_archived_id_equals_loose_id_of_entry_name
  (archive : Path) (nm : string) :
  in_set (PurePath.suffix (PurePath.of_string nm)) _IMAGE_EXTENSIONS = true ->
  image_id (ArchivedImage archive
              (PurePath.parent (PurePath.of_string nm))
              (PurePath.name (PurePath.of_string nm)))
  = image_id (RegularImage (PurePath.of_string nm)).
Proof.
  intros Hs. unfold image_id.
  rewrite div_parent_name; [reflexivity | |].
  - now apply recognised_suffix_has_name.
  - apply name_of_string_component. now apply recognised_suffix_has_name.
Qed.

Lemma X12_archived_id_equals_loose_id_of_entry_name_witness :
  image_id (ArchivedImage (PurePath.of_string "backup.zip")
              (PurePath.parent (PurePath.of_string "photos/a.jpg"))
              (PurePath.name (PurePath.of_string "photos/a.jpg")))
  = image_id (RegularImage (PurePath.of_string "photos/a.jpg")).
Proof.
  apply (X12_archived_id_equals_loose_id_of_entry_name
           (PurePath.of_string "backup.zip") "photos/a.jpg").
  vm_compute. reflexivity.
Defined.

(** X14: a loose image found under the name [child] in the listing of a
    directory [dir] belongs to the gallery of that directory: its
    location is [dir], its name is [str(dir)], its id is the hash of
    [str(dir)], and the image's own name is [child]; so all loose images
    of one directory share one gallery. *)
Theorem X14_loose_image_gallery_is_its_directory (dir : Path) (child : string) :
  component child = true ->
  let image := RegularImage (PurePath.div dir child) in
  gallery_location image = dir
  /\ gallery_name image = PurePath.to_string dir
  /\ gallery_id image = _hash (PurePath.to_string dir)
  /\ image_name image = child.
Proof.
  intros Hc image. unfold image, gallery_location, gallery_name, gallery_id,
    image_name, regular_gallery.
  rewrite (parent_div_component _ _ Hc). repeat split.
  apply name_div_component. now apply of_string_component.
Qed.

Lemma X14_loose_image_gallery_is_its_directory_witness :
  gallery_location (RegularImage (PurePath.div (PurePath.of_string "r/sub") "d.png"))
  = PurePath.of_string "r/sub".
Proof.
  apply (X14_loose_image_gallery_is_its_directory (PurePath.of_string "r/sub")
           "d.png").
  vm_compute. reflexivity.
Defined.

(** ** The indexing loops *)


(** X15: a directory not named [._*] visits its children in listing
    order. When no child's traversal raises, it yields what the children
    yield, one after the other, and raises nothing; when a child's
    traversal raises and none before it does, it yields what the children
    before it yield and what that child yielded before raising, raises
    the same exception, and visits no child after it. *)
Theorem X15_directory_yields_children_in_listing_order
  (accelerate : bool) (root : Path) (children : list (string * node)) :
  startswith (PurePath.name root) "._" = false ->
  let visit := fun ch : string * node =>
    get_files_at accelerate (PurePath.div root (fst ch)) (snd ch) in
  ((forall ch, In ch children -> snd (visit ch) = None) ->
   get_files_at accelerate root (Dir children)
   = (flat_map (fun ch => fst (visit ch)) children, None))
  /\ (forall before ch after e,
        children = before ++ ch :: after ->
        (forall b, In b before -> snd (visit b) = None) ->
        snd (visit ch) = Some e ->
        get_files_at accelerate root (Dir children)
        = (flat_map (fun b => fst (visit b)) before ++ fst (visit ch), Some e)).
Proof.
  intros Hname visit. subst visit. cbv beta.
  rewrite get_files_at_dir, Hname. split.
  - induction children as [|ch cs IH]; intros Hnone; [reflexivity|].
    cbn [fold_right flat_map].
    rewrite IH by (intros; apply Hnone; now right).
    unfold then_trace. now rewrite (Hnone ch (or_introl eq_refl)).
  - intros before ch after e -> Hbefore Hch.
    induction before as [|b before IH]; cbn [fold_right flat_map app].
    + unfold then_trace. rewrite Hch.
      destruct (get_files_at accelerate (PurePath.div root (fst ch)) (snd ch))
        as [yielded ended].
      cbn [snd fst] in *. now subst.
    + rewrite IH by (intros; apply Hbefore; now right).
      unfold then_trace. rewrite (Hbefore b (or_introl eq_refl)).
      cbn [fst snd]. now rewrite app_assoc.
Qed.

Lemma X15_directory_yields_children_in_listing_order_witness :
  get_files_at true (PurePath.of_string "r")
    (Dir [("ok.png", File [x01] NotZip);
          ("broken.zip", File [x00] NotZip);
          ("late.png", File [x02] NotZip)])
  = ([RegularImage (PurePath.of_string "r/ok.png")], Some BadZipFile).
Proof.
  destruct (X15_directory_yields_children_in_listing_order true
              (PurePath.of_string "r")
              [("ok.png", File [x01] NotZip);
               ("broken.zip", File [x00] NotZip);
               ("late.png", File [x02] NotZip)]) as [_ Hraise].
  - vm_compute. reflexivity.
  - rewrite (Hraise [("ok.png", File [x01] NotZip)]
               ("broken.zip", File [x00] NotZip)
               [("late.png", File [x02] NotZip)] BadZipFile).
    + vm_compute. reflexivity.
    + reflexivity.
    + intros b [<-|[]]. vm_compute. reflexivity.
    + vm_compute. reflexivity.
Defined.
